(** * Prompt/label builder of the fine-tuning notebooks

    A shallow embedding of [preprocess_sample] (Finetuning_Deepspeed.ipynb)
    together with the properties its specification states about it.

    Conventions of the embedding:
    - a Python [str] is the list of its Unicode code points ([pystr]);
    - the raw example is a [dict] from keys to strings ([gmap string pystr]);
    - a one-dimensional integer tensor is a [list Z], a batch of them a
      [list (list Z)];
    - raised exceptions are values of [PyError], threaded by the [result]
      monad. *)

From Stdlib Require Import ZArith Ascii String List Lia.
From stdpp Require Import base numbers option list gmap strings.

Local Open Scope Z_scope.

(** ** Exceptions *)

Inductive PyError : Type :=
| KeyError (key : string)
| IndexError.

Inductive result (A : Type) : Type :=
| Ok (a : A)
| Raise (e : PyError).
Arguments Ok {A} a.
Arguments Raise {A} e.

Definition bind {A B : Type} (m : result A) (k : A -> result B) : result B :=
  match m with
  | Ok a => k a
  | Raise e => Raise e
  end.

Notation "'let*' x ':=' m 'in' k" := (bind m (fun x => k))
  (at level 10, x name, m at level 100, k at level 200).

(** ** Python strings *)

Module PyStr.

Definition pystr : Type := list N.

(** An ASCII literal of the source as a Python string. *)
Definition lit (s : string) : pystr :=
  N_of_ascii <$> list_ascii_of_string s.

Definition LF : pystr := [10%N].
Global Arguments lit : simpl never.

(** [str.isspace] on one code point: the characters CPython classifies as
    whitespace. *)
Definition is_space (c : N) : bool :=
  ((9 <=? c) && (c <=? 13) ||
   (28 <=? c) && (c <=? 32) ||
   (c =? 133) || (c =? 160) || (c =? 5760) ||
   (8192 <=? c) && (c <=? 8202) ||
   (c =? 8232) || (c =? 8233) || (c =? 8239) || (c =? 8287) ||
   (c =? 12288))%N.

Fixpoint lstrip (s : pystr) : pystr :=
  match s with
  | [] => []
  | c :: s' => if is_space c then lstrip s' else s
  end.

Definition rstrip (s : pystr) : pystr := reverse (lstrip (reverse s)).

(** [s.strip()] *)
Definition strip (s : pystr) : pystr := rstrip (lstrip s).

(** Truth value of a string: non-empty. *)
Definition truthy (s : pystr) : bool :=
  match s with
  | [] => false
  | _ :: _ => true
  end.

End PyStr.
Import PyStr.

(** ** Raw examples *)

(** [example[key]] *)
Definition getitem (example : gmap string pystr) (key : string) : result pystr :=
  match example !! key with
  | Some v => Ok v
  | None => Raise (KeyError key)
  end.

(** [example.get(key, default)] *)
Definition get (example : gmap string pystr) (key : string) (default : pystr) : pystr :=
  match example !! key with
  | Some v => v
  | None => default
  end.

(** ** Tensors *)

(** The label value the loss skips. *)
Definition IGNORE : Z := -100.

(** [t[0]] on a batch. *)
Definition row0 (t : list (list Z)) : result (list Z) :=
  match t with
  | r :: _ => Ok r
  | [] => Raise IndexError
  end.

(** [t.sum().item()], as the exact sum. The tensor is int64: on a mask of
    bits shorter than 2^63 the machine sum [tensor_sum_int64] is this sum
    (see [tensor_sum_int64_bits]); where a property is stated without the
    tokenizer contract it is stated for every value of [prompt_len]. *)
Definition tensor_sum (t : list Z) : Z := foldr Z.add 0 t.

(** Where the slice [t[:k]] stops on a tensor of [len] elements: a negative
    [k] counts from the end, and both ends are clamped to the tensor. *)
Definition slice_stop (k : Z) (len : nat) : nat :=
  if k <? 0 then Z.to_nat (Z.max 0 (Z.of_nat len + k))
  else Z.to_nat (Z.min k (Z.of_nat len)).

(** [t[:k] = v] *)
Definition fill_prefix (k : Z) (v : Z) (t : list Z) : list Z :=
  let stop := slice_stop k (length t) in
  replicate stop v ++ drop stop t.

(** [t[mask == 0] = v]; the boolean index must have the shape of [t]. *)
Definition fill_where_zero (mask : list Z) (v : Z) (t : list Z) : result (list Z) :=
  if decide (length mask = length t)
  then Ok (zip_with (fun m x => if m =? 0 then v else x) mask t)
  else Raise IndexError.

(** ** The tokenizer *)

Inductive PaddingStrategy : Type :=
| PadLongest
| PadMaxLength
| DoNotPad.

Record BatchEncoding : Type := {
  input_ids : list (list Z);
  attention_mask : list (list Z)
}.

(** [tokenizer(text, max_length=.., padding=.., truncation=..,
    return_tensors="pt")] *)
Definition Tokenizer : Type :=
  pystr -> Z -> PaddingStrategy -> bool -> BatchEncoding.

(** ** preprocess_sample *)

(** The dictionary the function returns. *)
Record Features : Type := {
  out_input_ids : list Z;
  out_attention_mask : list Z;
  out_labels : list Z
}.

(** The local variables of [preprocess_sample] when it returns. *)
Record Locals : Type := {
  user : pystr;
  assistant : pystr;
  reasoning : pystr;
  full_ans : pystr;
  prompt : pystr;
  inp_ids : list Z;
  attn : list Z;
  prompt_len : Z;
  labels : list Z
}.

Definition SEPARATOR : pystr := LF ++ lit "Reasoning: ".

Definition run_preprocess_sample
    (example : gmap string pystr) (tokenizer : Tokenizer) (max_len : Z)
  : result Locals :=
  let* user_field := getitem example "user" in
  let user := strip user_field in
  let* assistant_field := getitem example "assistant" in
  let assistant := strip assistant_field in
  let reasoning := strip (get example "reasoning" (lit "")) in
  let full_ans :=
    if truthy reasoning then assistant ++ SEPARATOR ++ reasoning
    else assistant in
  let prompt :=
    lit "### User:" ++ LF ++ user ++ LF ++ LF ++ lit "### Assistant:" ++ LF in
  let enc := tokenizer (prompt ++ full_ans) max_len PadMaxLength true in
  let* inp_ids := row0 (input_ids enc) in
  let* attn := row0 (attention_mask enc) in
  let prompt_ids := tokenizer prompt max_len PadMaxLength true in
  let* prompt_mask := row0 (attention_mask prompt_ids) in
  let prompt_len := tensor_sum prompt_mask in
  let labels := inp_ids in
  let labels := fill_prefix prompt_len IGNORE labels in
  let* labels := fill_where_zero attn IGNORE labels in
  Ok {| user := user; assistant := assistant; reasoning := reasoning;
        full_ans := full_ans; prompt := prompt; inp_ids := inp_ids;
        attn := attn; prompt_len := prompt_len; labels := labels |}.

(** The returned dictionary, built from the locals. The callers of the
    notebook leave [max_len] at its default, 1024. *)
Definition returned (fr : Locals) : Features :=
  {| out_input_ids := inp_ids fr;
     out_attention_mask := attn fr;
     out_labels := labels fr |}.

Definition preprocess_sample
    (example : gmap string pystr) (tokenizer : Tokenizer) (max_len : Z)
  : result Features :=
  let* fr := run_preprocess_sample example tokenizer max_len in
  Ok (returned fr).



(** ** The specification's vocabulary *)

(** An attention-mask entry is 0 (padding) or 1 (real token). *)
Definition is_bit (m : Z) : Prop := m = 0 \/ m = 1.

(** The tokenizer contract: asked for [max_length] padding and truncation at a
    positive [n], the tokenizer returns a batch of one row of ids and one row
    of mask, both of length [n], the mask made of bits. *)
Definition tokenizer_contract (tokenizer : Tokenizer) : Prop :=
  forall (text : pystr) (n : Z), 0 < n ->
    exists ids mask : list Z,
      tokenizer text n PadMaxLength true
        = {| input_ids := [ids]; attention_mask := [mask] |} /\
      Z.of_nat (length ids) = n /\
      Z.of_nat (length mask) = n /\
      Forall is_bit mask.

(** The number of real (non-padding) tokens of an encoding. *)
Definition real_tokens (mask : list Z) : nat :=
  length (filter (fun m => m <> 0) mask).

(** Label masking as the specification words it: one pass that ignores a
    position iff it belongs to the prompt or is padding. *)
Definition mask_union (prompt_len : Z) (attn ids : list Z) : list Z :=
  imap (fun i x =>
          if (Z.of_nat i <? prompt_len) || bool_decide (attn !! i = Some 0)
          then IGNORE else x) ids.

(** The two masks in the opposite order: padding first, prompt second. *)
Definition mask_padding_then_prompt
    (prompt_len : Z) (attn ids : list Z) : result (list Z) :=
  let* labels := fill_where_zero attn IGNORE ids in
  Ok (fill_prefix prompt_len IGNORE labels).

(** The two masks in the order of the source. *)
Definition mask_prompt_then_padding
    (prompt_len : Z) (attn ids : list Z) : result (list Z) :=
  fill_where_zero attn IGNORE (fill_prefix prompt_len IGNORE ids).

(** What a normal return says about the locals, for any tokenizer. *)
Record returns_with
    (example : gmap string pystr) (tokenizer : Tokenizer) (max_len : Z)
    (fr : Locals) : Prop := {
  rw_user : option_map strip (example !! "user") = Some (user fr);
  rw_assistant :
    option_map strip (example !! "assistant") = Some (assistant fr);
  rw_reasoning : reasoning fr = strip (get example "reasoning" (lit ""));
  rw_full_ans :
    full_ans fr
    = if truthy (reasoning fr)
      then assistant fr ++ SEPARATOR ++ reasoning fr else assistant fr;
  rw_prompt :
    prompt fr
    = lit "### User:" ++ LF ++ user fr ++ LF ++ LF
        ++ lit "### Assistant:" ++ LF;
  rw_inp_ids :
    row0 (input_ids
            (tokenizer (prompt fr ++ full_ans fr) max_len PadMaxLength true))
    = Ok (inp_ids fr);
  rw_attn :
    row0 (attention_mask
            (tokenizer (prompt fr ++ full_ans fr) max_len PadMaxLength true))
    = Ok (attn fr);
  rw_prompt_len :
    option_map tensor_sum
      (head (attention_mask (tokenizer (prompt fr) max_len PadMaxLength true)))
    = Some (prompt_len fr);
  rw_labels :
    mask_prompt_then_padding (prompt_len fr) (attn fr) (inp_ids fr)
    = Ok (labels fr)
}.

(** What the tokenizer contract adds about the locals. *)
Record well_shaped (tokenizer : Tokenizer) (max_len : Z) (fr : Locals)
  : Prop := {
  ws_inp_ids : Z.of_nat (length (inp_ids fr)) = max_len;
  ws_attn : Z.of_nat (length (attn fr)) = max_len;
  ws_labels : Z.of_nat (length (labels fr)) = max_len;
  ws_bits : Forall is_bit (attn fr);
  ws_prompt_mask :
    exists prompt_mask,
      attention_mask (tokenizer (prompt fr) max_len PadMaxLength true)
        = [prompt_mask] /\
      Z.of_nat (length prompt_mask) = max_len /\
      Forall is_bit prompt_mask /\
      prompt_len fr = tensor_sum prompt_mask
}.

(** ** A character-level tokenizer

    One token per code point, padded on the right with [char_pad_id]; used to
    run the builder on concrete examples. *)

Definition char_pad_id : Z := 0.

Definition char_tokenizer : Tokenizer := fun text max_length padding truncation =>
  let ids := Z.of_N <$> text in
  let ids := if truncation then take (Z.to_nat max_length) ids else ids in
  let pad :=
    match padding with
    | PadMaxLength => (Z.to_nat max_length - length ids)%nat
    | _ => 0%nat
    end in
  {| input_ids := [ids ++ replicate pad char_pad_id];
     attention_mask := [replicate (length ids) 1 ++ replicate pad 0] |}.

(** The scenario of the specification. *)
Definition example_2plus2 : gmap string pystr :=
  {[ "user" := lit "2+2?"; "assistant" := lit "4"; "reasoning" := lit "" ]}.

(** The same example carrying a column the function never reads. *)
Definition example_2plus2_tagged : gmap string pystr :=
  <[ "source" := lit "arithmetic" ]> example_2plus2.

(** An example with a chain of thought and stray whitespace. *)
Definition example_reasoned : gmap string pystr :=
  {[ "user" := lit " 2+2? "; "assistant" := lit "4 ";
     "reasoning" := lit "  two and two" ]}.

(** An example without the optional field. *)
Definition example_bare : gmap string pystr :=
  {[ "user" := lit "2+2?"; "assistant" := lit "4" ]}.

(** A tokenizer that truncates whatever the caller asks. *)
Definition truncating_tokenizer : Tokenizer :=
  fun text max_length padding _ => char_tokenizer text max_length padding true.

(** ** The int64 accumulator of [sum()] *)

(** The value an int64 holds after an exact result [z]. *)
Definition wrap_int64 (z : Z) : Z := (z + 2 ^ 63) mod 2 ^ 64 - 2 ^ 63.

(** [t.sum().item()] as the machine computes it, every addition in int64. *)
Definition tensor_sum_int64 (t : list Z) : Z :=
  foldr (fun x acc => wrap_int64 (x + acc)) 0 t.


(** ** Toolkit paths

    The three assignments to [os.environ] of the import cell. *)

Definition configure_env (environ : gmap string pystr)
  : result (gmap string pystr) :=
  let environ := <[ "CUDA_HOME" := lit "/usr" ]> environ in
  let* cuda_home := getitem environ "CUDA_HOME" in
  let environ :=
    <[ "PATH" := cuda_home ++ lit "/bin:" ++ get environ "PATH" (lit "") ]>
      environ in
  let* cuda_home := getitem environ "CUDA_HOME" in
  let environ :=
    <[ "LD_LIBRARY_PATH" :=
         cuda_home ++ lit "/lib64:"
           ++ get environ "LD_LIBRARY_PATH" (lit "") ]> environ in
  Ok environ.

(** ** Inference: prompt and answer extraction ([run_inference]) *)

(** A string without whitespace at either end. *)
Definition trimmed (s : pystr) : Prop :=
  s = [] \/
  (exists a, head s = Some a /\ is_space a = false) /\
  (exists z, last s = Some z /\ is_space z = false).

Module Str.

(** [s.startswith(p)] *)
Fixpoint starts_with (p s : pystr) : bool :=
  match p, s with
  | [], _ => true
  | _ :: _, [] => false
  | a :: p', b :: s' => (a =? b)%N && starts_with p' s'
  end.

(** [sep in s] *)
Fixpoint occurs (sep s : pystr) : bool :=
  starts_with sep s ||
  match s with
  | [] => false
  | _ :: s' => occurs sep s'
  end.

(** Adds a character in front of the piece being read. *)
Definition push (c : N) (pieces : list pystr) : list pystr :=
  match pieces with
  | p :: ps => (c :: p) :: ps
  | [] => [[c]]
  end.

(** The pieces of [s] between the occurrences of [sep], found from the left
    and not overlapping; [skip] counts the characters of a found occurrence
    still to pass. *)
Fixpoint pieces (sep s : pystr) (skip : nat) : list pystr :=
  match s with
  | [] => [[]]
  | c :: s' =>
      match skip with
      | S k => pieces sep s' k
      | O =>
          if starts_with sep s then [] :: pieces sep s' (length sep - 1)
          else push c (pieces sep s' 0)
      end
  end.

(** [s.split(sep)] for a non-empty [sep] (the source passes a literal). *)
Definition str_split (s sep : pystr) : list pystr := pieces sep s 0.

(** [sep] has no border: no proper non-empty suffix of it is a prefix of it,
    so two occurrences of [sep] never overlap. *)
Definition borderless (sep : pystr) : bool :=
  forallb (fun k => negb (starts_with (drop k sep) sep))
          (seq 1 (length sep - 1)).

End Str.
Import Str.

(** [l[-1]] *)
Definition last_item (l : list pystr) : result pystr :=
  match last l with
  | Some x => Ok x
  | None => Raise IndexError
  end.

Definition SYSTEM : pystr :=
  lit "You are a helpful assistant. Answer concisely and accurately. "
    ++ lit "If unsure, say you don't know.".

Definition ANSWER_MARKER : pystr := lit "### Assistant:".

(** [full_prompt] of [run_inference]. *)
Definition full_prompt (prompt_text : pystr) : pystr :=
  SYSTEM ++ LF ++ LF ++ lit "### User:" ++ LF ++ prompt_text ++ LF ++ LF
    ++ lit "### Assistant:" ++ LF.

(** [answer] of [run_inference], from the decoded [text]. *)
Definition answer (text : pystr) : result pystr :=
  let* piece := last_item (str_split text ANSWER_MARKER) in
  Ok (strip piece).

(** ** Alpaca formatting ([format_alpaca], Finetuning_Unsloth.ipynb) *)

Module Alpaca.

Inductive Error : Type :=
| KeyError (key : string)
| TypeError.

Inductive outcome (A : Type) : Type :=
| Done (a : A)
| Failed (e : Error).
Arguments Done {A} a.
Arguments Failed {A} e.

Definition and_then {A B : Type} (m : outcome A) (k : A -> outcome B)
  : outcome B :=
  match m with
  | Done a => k a
  | Failed e => Failed e
  end.

(** [ex[key]] on a batch of columns. *)
Definition column (ex : gmap string (list pystr)) (key : string)
  : outcome (list pystr) :=
  match ex !! key with
  | Some col => Done col
  | None => Failed (KeyError key)
  end.

(** [zip(a, b, c)]: stops with the shortest column. *)
Fixpoint zip3 (a b c : list pystr) : list (pystr * pystr * pystr) :=
  match a, b, c with
  | x :: a', y :: b', z :: c' => (x, y, z) :: zip3 a' b' c'
  | _, _, _ => []
  end.

Definition HEADER : pystr :=
  lit "Below is an instruction with context. Write an appropriate response."
    ++ LF ++ LF ++ lit "### Instruction:" ++ LF.
Definition INPUT_HEADING : pystr := LF ++ LF ++ lit "### Input:" ++ LF.
Definition RESPONSE_HEADING : pystr := LF ++ LF ++ lit "### Response:" ++ LF.

(** [ALPACA_TMPL.format(i, inp, out)]: the template has three [{}] fields
    and no other brace, filled in order by the string arguments. *)
Definition alpaca_tmpl_format (i inp out : pystr) : pystr :=
  HEADER ++ i ++ INPUT_HEADING ++ inp ++ RESPONSE_HEADING ++ out.

(** [s + tokenizer.eos_token]: a tokenizer without the token has [None]. *)
Definition add_eos (s : pystr) (eos_token : option pystr) : outcome pystr :=
  match eos_token with
  | Some eos => Done (s ++ eos)
  | None => Failed TypeError
  end.

(** The list comprehension, one row at a time. *)
Fixpoint comprehension
    (eos_token : option pystr) (rows : list (pystr * pystr * pystr))
  : outcome (list pystr) :=
  match rows with
  | [] => Done []
  | (i, inp, out) :: rows' =>
      and_then (add_eos (alpaca_tmpl_format i inp out) eos_token) (fun t =>
      and_then (comprehension eos_token rows') (fun ts =>
      Done (t :: ts)))
  end.

Definition format_alpaca
    (eos_token : option pystr) (ex : gmap string (list pystr))
  : outcome (gmap string (list pystr)) :=
  and_then (column ex "instruction") (fun instructions =>
  and_then (column ex "input") (fun inputs =>
  and_then (column ex "output") (fun outputs =>
  and_then (comprehension eos_token (zip3 instructions inputs outputs))
    (fun text => Done {[ "text" := text ]})))).

End Alpaca.

(** Examples for the functions above. *)

Definition example_marked : pystr :=
  lit "noise ### Assistant: first ### Assistant:" ++ LF ++ lit " 4 " ++ LF.

Definition example_batch : gmap string (list pystr) :=
  {[ "instruction" := [lit "2+2?"; lit "3+3?"];
     "input" := [lit "add"; lit "add again"];
     "output" := [lit "4"; lit "6"] ]}.

(** * Properties *)

(** ** The model on the specification's scenario *)

Example strip_both_ends :
  strip (lit "  two and two " ++ LF) = lit "two and two".
Proof. reflexivity. Qed.

Example strip_keeps_inner_space : strip (lit " a b ") = lit "a b".
Proof. reflexivity. Qed.

Example strip_blank : strip (lit "   " ++ LF) = [].
Proof. reflexivity. Qed.

Example separator_code_points :
  SEPARATOR = [10; 82; 101; 97; 115; 111; 110; 105; 110; 103; 58; 32]%N.
Proof. reflexivity. Qed.

Example scenario_2plus2 :
  preprocess_sample example_2plus2 char_tokenizer 36
  = Ok {| out_input_ids :=
            [35; 35; 35; 32; 85; 115; 101; 114; 58; 10; 50; 43; 50; 63; 10;
             10; 35; 35; 35; 32; 65; 115; 115; 105; 115; 116; 97; 110; 116;
             58; 10; 52; 0; 0; 0; 0];
          out_attention_mask :=
            [1; 1; 1; 1; 1; 1; 1; 1; 1; 1; 1; 1; 1; 1; 1; 1; 1; 1; 1; 1; 1;
             1; 1; 1; 1; 1; 1; 1; 1; 1; 1; 1; 0; 0; 0; 0];
          out_labels :=
            replicate 31 IGNORE ++ [52] ++ replicate 4 IGNORE |}.
Proof. reflexivity. Qed.

Example scenario_negative_slice :
  fill_prefix (-1) IGNORE [7; 8; 9] = [IGNORE; IGNORE; 9].
Proof. reflexivity. Qed.

Example scenario_mask_shape :
  fill_where_zero [1; 0] IGNORE [7; 8; 9] = Raise IndexError.
Proof. reflexivity. Qed.

(** ** Tensor operations *)

Lemma slice_stop_le k len : (slice_stop k len <= len)%nat.
Proof. unfold slice_stop. destruct (Z.ltb_spec k 0); lia. Qed.

Lemma slice_stop_nonneg k len :
  0 <= k -> slice_stop k len = Z.to_nat (Z.min k (Z.of_nat len)).
Proof. intros Hk. unfold slice_stop. destruct (Z.ltb_spec k 0); [lia | done]. Qed.

Lemma length_fill_prefix k v (t : list Z) :
  length (fill_prefix k v t) = length t.
Proof.
  unfold fill_prefix. pose proof (slice_stop_le k (length t)).
  rewrite length_app, length_replicate, length_drop. lia.
Qed.

Lemma lookup_fill_prefix k v (t : list Z) (i : nat) :
  fill_prefix k v t !! i
  = if decide (i < slice_stop k (length t))%nat then Some v else t !! i.
Proof.
  unfold fill_prefix. set (stop := slice_stop k (length t)).
  rewrite lookup_app. case_decide as Hi.
  - by rewrite (lookup_replicate_2 stop v i Hi).
  - assert (replicate stop v !! i = None) as ->
      by (apply lookup_replicate_None; lia).
    rewrite length_replicate, lookup_drop. f_equal. lia.
Qed.

Lemma lookup_fill_prefix_nonneg k v (t : list Z) (i : nat) :
  0 <= k -> (i < length t)%nat ->
  fill_prefix k v t !! i = if Z.of_nat i <? k then Some v else t !! i.
Proof.
  intros Hk Hi. rewrite lookup_fill_prefix, slice_stop_nonneg by done.
  case_decide; destruct (Z.ltb_spec (Z.of_nat i) k); done || lia.
Qed.

Lemma fill_where_zero_ok mask v (t : list Z) :
  length mask = length t ->
  fill_where_zero mask v t
  = Ok (zip_with (fun m x => if m =? 0 then v else x) mask t).
Proof. intros H. unfold fill_where_zero. by rewrite decide_True. Qed.

Lemma fill_prefix_all k v (t : list Z) :
  Z.of_nat (length t) <= k -> fill_prefix k v t = replicate (length t) v.
Proof.
  intros Hk. unfold fill_prefix. rewrite slice_stop_nonneg by lia.
  replace (Z.to_nat _) with (length t) by lia.
  by rewrite drop_all, app_nil_r.
Qed.

Lemma tensor_sum_cons m t : tensor_sum (m :: t) = m + tensor_sum t.
Proof. done. Qed.

Lemma tensor_sum_bits mask :
  Forall is_bit mask -> tensor_sum mask = Z.of_nat (real_tokens mask).
Proof.
  unfold real_tokens. induction 1 as [|m mask [-> | ->] _ IH].
  - done.
  - rewrite tensor_sum_cons, IH, filter_cons_False by naive_solver. lia.
  - rewrite tensor_sum_cons, IH, filter_cons_True by done. simpl. lia.
Qed.

Lemma real_tokens_le mask : (real_tokens mask <= length mask)%nat.
Proof. apply length_filter. Qed.

Lemma tensor_sum_bounds mask :
  Forall is_bit mask -> 0 <= tensor_sum mask <= Z.of_nat (length mask).
Proof.
  intros H. rewrite (tensor_sum_bits _ H).
  pose proof (real_tokens_le mask). lia.
Qed.

(** ** The two masks and their union *)

Lemma lookup_mask_union k (attn ids : list Z) (i : nat) m x :
  attn !! i = Some m -> ids !! i = Some x ->
  mask_union k attn ids !! i
  = Some (if (Z.of_nat i <? k) || (m =? 0) then IGNORE else x).
Proof.
  intros Hm Hx. unfold mask_union. rewrite list_lookup_imap, Hx, Hm. simpl.
  do 2 f_equal. destruct (Z.eqb_spec m 0) as [-> | Hne].
  - by rewrite bool_decide_eq_true_2.
  - rewrite bool_decide_eq_false_2; [done | congruence].
Qed.

Lemma prompt_then_padding_union k (attn ids : list Z) :
  0 <= k -> length attn = length ids ->
  mask_prompt_then_padding k attn ids = Ok (mask_union k attn ids).
Proof.
  intros Hk Hlen. unfold mask_prompt_then_padding.
  rewrite fill_where_zero_ok by (by rewrite length_fill_prefix).
  f_equal. apply list_eq. intros i. rewrite lookup_zip_with.
  destruct (ids !! i) as [x|] eqn:Hx.
  - destruct (lookup_lt_is_Some_2 attn i) as [m Hm].
    { rewrite Hlen. by eapply lookup_lt_Some. }
    rewrite (lookup_mask_union _ _ _ _ _ _ Hm Hx), Hm. simpl.
    rewrite lookup_fill_prefix_nonneg, Hx
      by (done || by eapply lookup_lt_Some).
    destruct (Z.of_nat i <? k), (m =? 0); done.
  - unfold mask_union. rewrite list_lookup_imap, Hx.
    apply lookup_ge_None in Hx.
    rewrite (proj2 (lookup_ge_None attn i)) by lia. done.
Qed.

Lemma padding_then_prompt_union k (attn ids : list Z) :
  0 <= k -> length attn = length ids ->
  mask_padding_then_prompt k attn ids = Ok (mask_union k attn ids).
Proof.
  intros Hk Hlen. unfold mask_padding_then_prompt.
  rewrite fill_where_zero_ok by done. simpl.
  f_equal. apply list_eq. intros i.
  destruct (ids !! i) as [x|] eqn:Hx.
  - destruct (lookup_lt_is_Some_2 attn i) as [m Hm].
    { rewrite Hlen. by eapply lookup_lt_Some. }
    rewrite (lookup_mask_union _ _ _ _ _ _ Hm Hx).
    rewrite lookup_fill_prefix_nonneg; [| done |].
    + rewrite lookup_zip_with, Hm, Hx. simpl.
      destruct (Z.of_nat i <? k), (m =? 0); done.
    + rewrite length_zip_with_l_eq by done. by eapply lookup_lt_Some.
  - unfold mask_union. rewrite list_lookup_imap, Hx.
    apply lookup_ge_None in Hx. apply lookup_ge_None.
    rewrite length_fill_prefix, length_zip_with_l_eq by done. lia.
Qed.

(** C8: applying the prompt mask and then the padding mask, as the source
    does, gives the labels of the single pass that ignores a position iff it
    is below [prompt_len] or its attention bit is 0; applying the two masks
    in the opposite order gives the same labels. *)
Theorem masks_commute_and_unite (prompt_len : Z) (attn ids : list Z) :
  0 <= prompt_len -> length attn = length ids ->
  mask_prompt_then_padding prompt_len attn ids
    = Ok (mask_union prompt_len attn ids) /\
  mask_padding_then_prompt prompt_len attn ids
    = mask_prompt_then_padding prompt_len attn ids.
Proof.
  intros Hk Hlen. split.
  - by apply prompt_then_padding_union.
  - rewrite prompt_then_padding_union by done.
    by apply padding_then_prompt_union.
Qed.

Lemma masks_commute_and_unite_witness :
  mask_prompt_then_padding 2 [1; 1; 1; 0] [7; 8; 9; 5]
    = Ok (mask_union 2 [1; 1; 1; 0] [7; 8; 9; 5]) /\
  mask_padding_then_prompt 2 [1; 1; 1; 0] [7; 8; 9; 5]
    = mask_prompt_then_padding 2 [1; 1; 1; 0] [7; 8; 9; 5].
Proof. apply (masks_commute_and_unite 2 [1; 1; 1; 0] [7; 8; 9; 5]); [lia | reflexivity]. Defined.

(** ** One run of [preprocess_sample] *)


Lemma bind_Ok {A B} (m : result A) (k : A -> result B) b :
  bind m k = Ok b -> exists a, m = Ok a /\ k a = Ok b.
Proof. destruct m as [a|e]; [eauto | discriminate]. Qed.

Lemma row0_head t r : row0 t = Ok r -> head t = Some r.
Proof. destruct t; [discriminate | by intros [= ->]]. Qed.

Lemma run_returns_with example tokenizer max_len fr :
  run_preprocess_sample example tokenizer max_len = Ok fr ->
  returns_with example tokenizer max_len fr.
Proof.
  unfold run_preprocess_sample, getitem. intros Hrun.
  destruct (example !! "user") as [u|] eqn:Hu; [|discriminate].
  destruct (example !! "assistant") as [a|] eqn:Ha; [|discriminate].
  cbn [bind] in Hrun.
  apply bind_Ok in Hrun as (ids & Hids & Hrun).
  apply bind_Ok in Hrun as (mask & Hmask & Hrun).
  apply bind_Ok in Hrun as (pmask & Hpmask & Hrun).
  apply bind_Ok in Hrun as (lbl & Hlbl & Hrun).
  match type of Hrun with Ok ?x = _ => assert (fr = x) as -> by congruence end.
  clear Hrun.
  split; cbn [user assistant reasoning full_ans prompt inp_ids attn
              prompt_len labels]; try done.
  - by rewrite Hu.
  - by rewrite Ha.
  - by rewrite (row0_head _ _ Hpmask).
Qed.

Lemma preprocess_sample_Ok example tokenizer max_len fr :
  run_preprocess_sample example tokenizer max_len = Ok fr ->
  preprocess_sample example tokenizer max_len = Ok (returned fr).
Proof. intros H. unfold preprocess_sample. by rewrite H. Qed.

Lemma preprocess_sample_Ok_inv example tokenizer max_len r :
  preprocess_sample example tokenizer max_len = Ok r ->
  exists fr, run_preprocess_sample example tokenizer max_len = Ok fr /\
             r = returned fr.
Proof.
  unfold preprocess_sample. intros H.
  apply bind_Ok in H as (fr & Hfr & H). exists fr. split; congruence.
Qed.


Section Contract.

Variable tokenizer : Tokenizer.
Hypothesis contract : tokenizer_contract tokenizer.

Variable max_len : Z.
Hypothesis max_len_pos : 0 < max_len.

Variable example : gmap string pystr.
Variables user_field assistant_field : pystr.
Hypothesis has_user : example !! "user" = Some user_field.
Hypothesis has_assistant : example !! "assistant" = Some assistant_field.

(** With both required fields and a tokenizer honouring its contract, the
    function returns, and its tensors have the contract's shape. *)
Lemma run_well_shaped :
  exists fr,
    run_preprocess_sample example tokenizer max_len = Ok fr /\
    well_shaped tokenizer max_len fr.
Proof using All.
  unfold run_preprocess_sample, getitem.
  rewrite has_user, has_assistant. cbn [bind].
  set (p := lit "### User:" ++ _).
  set (target := if truthy _ then _ else _).
  destruct (contract (p ++ target) max_len max_len_pos)
    as (ids & mask & -> & Hids & Hmask & Hbits).
  destruct (contract p max_len max_len_pos)
    as (pids & pmask & Hp & Hpids & Hpmask & Hpbits).
  rewrite Hp. cbn [input_ids attention_mask row0 bind].
  rewrite fill_where_zero_ok by (rewrite length_fill_prefix; lia).
  cbn [bind]. eexists. split; [reflexivity|].
  split; cbn [inp_ids attn labels prompt prompt_len]; try done.
  - rewrite length_zip_with_l_eq by (rewrite length_fill_prefix; lia). done.
  - exists pmask. by rewrite Hp.
Qed.

Lemma prompt_len_bounds fr :
  well_shaped tokenizer max_len fr -> 0 <= prompt_len fr <= max_len.
Proof using Type.
  intros [_ _ _ _ (pmask & _ & Hlen & Hbits & ->)].
  pose proof (tensor_sum_bounds _ Hbits). lia.
Qed.

Lemma run_labels_union fr :
  run_preprocess_sample example tokenizer max_len = Ok fr ->
  well_shaped tokenizer max_len fr ->
  labels fr = mask_union (prompt_len fr) (attn fr) (inp_ids fr).
Proof using Type.
  intros Hrun Hws. pose proof (prompt_len_bounds _ Hws) as [Hk _].
  pose proof (rw_labels _ _ _ _ (run_returns_with _ _ _ _ Hrun)) as Hl.
  rewrite prompt_then_padding_union in Hl.
  - congruence.
  - done.
  - destruct Hws. lia.
Qed.

(** C1: for every position [i] below [max_len], [labels[i]] is the ignore
    sentinel if [i < prompt_len] or [attention_mask[i] == 0], and
    [input_ids[i]] otherwise. *)
Theorem labels_mask_law :
  exists fr,
    run_preprocess_sample example tokenizer max_len = Ok fr /\
    preprocess_sample example tokenizer max_len = Ok (returned fr) /\
    forall i : nat, Z.of_nat i < max_len ->
      exists m x,
        out_attention_mask (returned fr) !! i = Some m /\
        out_input_ids (returned fr) !! i = Some x /\
        out_labels (returned fr) !! i
        = Some (if (Z.of_nat i <? prompt_len fr) || (m =? 0)
                then IGNORE else x).
Proof using All.
  destruct run_well_shaped as (fr & Hrun & Hws). exists fr.
  split; [done|]. split; [by apply preprocess_sample_Ok|].
  intros i Hi. cbn [returned out_attention_mask out_input_ids out_labels].
  destruct (lookup_lt_is_Some_2 (attn fr) i) as [m Hm].
  { destruct Hws. lia. }
  destruct (lookup_lt_is_Some_2 (inp_ids fr) i) as [x Hx].
  { destruct Hws. lia. }
  exists m, x. split; [done|]. split; [done|].
  rewrite (run_labels_union fr Hrun Hws).
  by apply lookup_mask_union.
Qed.

(** C2: the three returned sequences all have length exactly [max_len]. *)
Theorem output_lengths :
  exists r,
    preprocess_sample example tokenizer max_len = Ok r /\
    Z.of_nat (length (out_input_ids r)) = max_len /\
    Z.of_nat (length (out_attention_mask r)) = max_len /\
    Z.of_nat (length (out_labels r)) = max_len.
Proof using All.
  destruct run_well_shaped as (fr & Hrun & Hws). exists (returned fr).
  split; [by apply preprocess_sample_Ok|]. by destruct Hws.
Qed.

(** C5: [prompt_len] is the number of real tokens of the encoding of the
    prompt-only text, taken under the same [max_len], truncation and padding
    as the full text: the sum of that encoding's attention mask. *)
Theorem prompt_len_counts_real_tokens :
  exists fr prompt_mask,
    run_preprocess_sample example tokenizer max_len = Ok fr /\
    prompt fr
    = lit "### User:" ++ LF ++ strip user_field ++ LF ++ LF
        ++ lit "### Assistant:" ++ LF /\
    row0 (input_ids
            (tokenizer (prompt fr ++ full_ans fr) max_len PadMaxLength true))
    = Ok (inp_ids fr) /\
    attention_mask (tokenizer (prompt fr) max_len PadMaxLength true)
    = [prompt_mask] /\
    prompt_len fr = tensor_sum prompt_mask /\
    prompt_len fr = Z.of_nat (real_tokens prompt_mask).
Proof using All.
  destruct run_well_shaped as (fr & Hrun & Hws).
  pose proof (run_returns_with _ _ _ _ Hrun) as Hrw.
  destruct (ws_prompt_mask _ _ _ Hws) as (pmask & Hp & _ & Hbits & Hlen).
  exists fr, pmask. split; [done|]. split.
  { pose proof (rw_user _ _ _ _ Hrw) as Hu. rewrite has_user in Hu.
    injection Hu as Hu. rewrite Hu. apply (rw_prompt _ _ _ _ Hrw). }
  split; [apply (rw_inp_ids _ _ _ _ Hrw)|].
  split; [done|]. split; [done|].
  rewrite Hlen. by apply tensor_sum_bits.
Qed.

(** C6: when the prompt alone fills the budget ([prompt_len >= max_len]),
    the function still returns and every label is the ignore sentinel. *)
Theorem full_prompt_ignores_everything :
  exists fr,
    run_preprocess_sample example tokenizer max_len = Ok fr /\
    preprocess_sample example tokenizer max_len = Ok (returned fr) /\
    (max_len <= prompt_len fr ->
     out_labels (returned fr) = replicate (Z.to_nat max_len) IGNORE).
Proof using All.
  destruct run_well_shaped as (fr & Hrun & Hws). exists fr.
  split; [done|]. split; [by apply preprocess_sample_Ok|].
  intros Hfull. cbn [returned out_labels].
  pose proof (rw_labels _ _ _ _ (run_returns_with _ _ _ _ Hrun)) as Hl.
  unfold mask_prompt_then_padding in Hl.
  destruct Hws as [Hids Hattn _ _ _].
  rewrite fill_prefix_all in Hl by lia.
  rewrite fill_where_zero_ok in Hl by (rewrite length_replicate; lia).
  injection Hl as <-.
  replace (Z.to_nat max_len) with (length (inp_ids fr)) by lia.
  apply list_eq. intros i. rewrite lookup_zip_with.
  destruct (decide (i < length (inp_ids fr))%nat) as [Hi | Hi].
  - destruct (lookup_lt_is_Some_2 (attn fr) i) as [m ->]; [lia|].
    rewrite lookup_replicate_2 by done. simpl. by destruct (m =? 0).
  - rewrite (proj2 (lookup_ge_None (attn fr) i)) by lia.
    symmetry. apply lookup_replicate_None. lia.
Qed.

(** C10: [prompt_len] never exceeds [max_len], so the slice [labels[:prompt_len]]
    stays inside the tensor, and [prompt_len >= max_len] can only hold with
    equality. *)
Theorem prompt_len_within_budget :
  exists fr,
    run_preprocess_sample example tokenizer max_len = Ok fr /\
    0 <= prompt_len fr <= max_len /\
    (Z.to_nat (prompt_len fr) <= length (inp_ids fr))%nat /\
    slice_stop (prompt_len fr) (length (inp_ids fr))
    = Z.to_nat (prompt_len fr) /\
    (max_len <= prompt_len fr -> prompt_len fr = max_len).
Proof using All.
  destruct run_well_shaped as (fr & Hrun & Hws). exists fr.
  pose proof (prompt_len_bounds fr Hws) as Hb.
  destruct Hws as [Hids _ _ _ _].
  split; [done|]. split; [done|]. split; [lia|]. split; [|lia].
  rewrite slice_stop_nonneg by lia. lia.
Qed.

End Contract.

(** ** Text construction *)

(** C3: with an empty trimmed [reasoning] the target text is the trimmed
    [assistant] alone; otherwise it is [assistant], the separator
    ["\nReasoning: "], then [reasoning]. *)
Theorem target_text example tokenizer max_len fr :
  run_preprocess_sample example tokenizer max_len = Ok fr ->
  exists assistant_field,
    example !! "assistant" = Some assistant_field /\
    assistant fr = strip assistant_field /\
    reasoning fr = strip (get example "reasoning" (lit "")) /\
    (reasoning fr = [] -> full_ans fr = assistant fr) /\
    (reasoning fr <> [] ->
     full_ans fr
     = assistant fr ++ (LF ++ lit "Reasoning: ") ++ reasoning fr).
Proof.
  intros Hrun. destruct (run_returns_with _ _ _ _ Hrun)
    as [_ Ha Hr Hfull _ _ _ _ _].
  destruct (example !! "assistant") as [a|]; [|discriminate].
  exists a. split; [done|]. split; [by injection Ha|]. split; [done|].
  rewrite Hfull. split.
  - by intros ->.
  - intros Hne. by destruct (reasoning fr).
Qed.

(** C4: the text given to the tokenizer is the prompt
    ["### User:\n" + user + "\n\n### Assistant:\n"], with the trimmed user
    text, immediately followed by the target text. *)
Theorem full_text_template example tokenizer max_len fr :
  run_preprocess_sample example tokenizer max_len = Ok fr ->
  exists user_field,
    example !! "user" = Some user_field /\
    prompt fr
    = lit "### User:" ++ LF ++ strip user_field ++ LF ++ LF
        ++ lit "### Assistant:" ++ LF /\
    row0 (input_ids
            (tokenizer (prompt fr ++ full_ans fr) max_len PadMaxLength true))
    = Ok (out_input_ids (returned fr)) /\
    row0 (attention_mask
            (tokenizer (prompt fr ++ full_ans fr) max_len PadMaxLength true))
    = Ok (out_attention_mask (returned fr)).
Proof.
  intros Hrun. destruct (run_returns_with _ _ _ _ Hrun)
    as [Hu _ _ _ Hp Hids Hattn _ _].
  destruct (example !! "user") as [u|]; [|discriminate].
  exists u. split; [done|]. injection Hu as Hu.
  split; [by rewrite Hu|]. done.
Qed.

(** ** Errors *)

Lemma missing_user_raises example tokenizer max_len :
  example !! "user" = None ->
  preprocess_sample example tokenizer max_len = Raise (KeyError "user").
Proof.
  intros H. unfold preprocess_sample, run_preprocess_sample, getitem.
  by rewrite H.
Qed.

Lemma missing_assistant_raises example tokenizer max_len :
  is_Some (example !! "user") -> example !! "assistant" = None ->
  preprocess_sample example tokenizer max_len = Raise (KeyError "assistant").
Proof.
  intros [u Hu] H. unfold preprocess_sample, run_preprocess_sample, getitem.
  by rewrite Hu, H.
Qed.

(** C7: a missing [user] or [assistant] field raises [KeyError]; with both
    present and a tokenizer honouring its contract the function returns,
    whether [reasoning] is present or not. *)
Theorem required_fields example tokenizer max_len :
  (example !! "user" = None ->
   preprocess_sample example tokenizer max_len = Raise (KeyError "user")) /\
  (is_Some (example !! "user") -> example !! "assistant" = None ->
   preprocess_sample example tokenizer max_len
   = Raise (KeyError "assistant")) /\
  (tokenizer_contract tokenizer -> 0 < max_len ->
   is_Some (example !! "user") -> is_Some (example !! "assistant") ->
   (exists r, preprocess_sample example tokenizer max_len = Ok r) /\
   (exists r, preprocess_sample (delete "reasoning" example) tokenizer max_len
              = Ok r)).
Proof.
  split; [apply missing_user_raises|].
  split; [apply missing_assistant_raises|].
  intros Hc Hn [u Hu] [a Ha]. split.
  - destruct (run_well_shaped tokenizer Hc max_len Hn example u a Hu Ha)
      as (fr & Hrun & _).
    exists (returned fr). by apply preprocess_sample_Ok.
  - destruct (run_well_shaped tokenizer Hc max_len Hn
                (delete "reasoning" example) u a) as (fr & Hrun & _).
    + by rewrite lookup_delete_ne.
    + by rewrite lookup_delete_ne.
    + exists (returned fr). by apply preprocess_sample_Ok.
Qed.

(** ** The character-level tokenizer honours the contract *)

Lemma char_tokenizer_contract : tokenizer_contract char_tokenizer.
Proof.
  intros text n Hn. unfold char_tokenizer. eexists _, _.
  split; [reflexivity|].
  set (ids := take (Z.to_nat n) (Z.of_N <$> text)).
  assert (length ids <= Z.to_nat n)%nat
    by (unfold ids; rewrite length_take; lia).
  rewrite !length_app, !length_replicate.
  split; [lia|]. split; [lia|].
  apply Forall_app. split; apply Forall_replicate; [by right | by left].
Qed.

(** ** The properties on concrete examples *)

Lemma example_2plus2_user : example_2plus2 !! "user" = Some (lit "2+2?").
Proof. reflexivity. Qed.

Lemma example_2plus2_assistant : example_2plus2 !! "assistant" = Some (lit "4").
Proof. reflexivity. Qed.

Lemma labels_mask_law_witness :
  exists fr,
    run_preprocess_sample example_2plus2 char_tokenizer 40 = Ok fr /\
    preprocess_sample example_2plus2 char_tokenizer 40 = Ok (returned fr) /\
    forall i : nat, Z.of_nat i < 40 ->
      exists m x,
        out_attention_mask (returned fr) !! i = Some m /\
        out_input_ids (returned fr) !! i = Some x /\
        out_labels (returned fr) !! i
        = Some (if (Z.of_nat i <? prompt_len fr) || (m =? 0)
                then IGNORE else x).
Proof.
  apply (labels_mask_law char_tokenizer char_tokenizer_contract 40
           ltac:(lia) example_2plus2 (lit "2+2?") (lit "4")).
  - apply example_2plus2_user.
  - apply example_2plus2_assistant.
Defined.

Lemma output_lengths_witness :
  exists r,
    preprocess_sample example_reasoned char_tokenizer 8 = Ok r /\
    Z.of_nat (length (out_input_ids r)) = 8 /\
    Z.of_nat (length (out_attention_mask r)) = 8 /\
    Z.of_nat (length (out_labels r)) = 8.
Proof.
  refine (output_lengths char_tokenizer char_tokenizer_contract 8 _
            example_reasoned (lit " 2+2? ") (lit "4 ") _ _);
    [lia | reflexivity | reflexivity].
Defined.

Lemma target_text_witness :
  exists fr,
    run_preprocess_sample example_reasoned char_tokenizer 64 = Ok fr /\
    reasoning fr = lit "two and two" /\
    full_ans fr = lit "4" ++ LF ++ lit "Reasoning: two and two".
Proof.
  eexists. split; [reflexivity|].
  edestruct (target_text example_reasoned char_tokenizer 64)
    as (a & Ha & Hassistant & Hreasoning & _ & Hsome); [reflexivity|].
  split; [exact Hreasoning|].
  rewrite Hsome; [reflexivity | discriminate].
Defined.

Lemma full_text_template_witness :
  exists fr,
    run_preprocess_sample example_reasoned char_tokenizer 64 = Ok fr /\
    exists user_field,
      example_reasoned !! "user" = Some user_field /\
      prompt fr
      = lit "### User:" ++ LF ++ strip user_field ++ LF ++ LF
          ++ lit "### Assistant:" ++ LF /\
      row0 (input_ids
              (char_tokenizer (prompt fr ++ full_ans fr) 64 PadMaxLength true))
      = Ok (out_input_ids (returned fr)) /\
      row0 (attention_mask
              (char_tokenizer (prompt fr ++ full_ans fr) 64 PadMaxLength true))
      = Ok (out_attention_mask (returned fr)).
Proof.
  eexists. split; [reflexivity|].
  apply (full_text_template example_reasoned char_tokenizer 64).
  reflexivity.
Defined.

Lemma prompt_len_counts_real_tokens_witness :
  exists fr prompt_mask,
    run_preprocess_sample example_bare char_tokenizer 40 = Ok fr /\
    prompt fr
    = lit "### User:" ++ LF ++ strip (lit "2+2?") ++ LF ++ LF
        ++ lit "### Assistant:" ++ LF /\
    row0 (input_ids
            (char_tokenizer (prompt fr ++ full_ans fr) 40 PadMaxLength true))
    = Ok (inp_ids fr) /\
    attention_mask (char_tokenizer (prompt fr) 40 PadMaxLength true)
    = [prompt_mask] /\
    prompt_len fr = tensor_sum prompt_mask /\
    prompt_len fr = Z.of_nat (real_tokens prompt_mask).
Proof.
  apply (prompt_len_counts_real_tokens char_tokenizer char_tokenizer_contract
           40 ltac:(lia) example_bare (lit "2+2?") (lit "4"));
    reflexivity.
Defined.

Lemma full_prompt_ignores_everything_witness :
  exists fr,
    run_preprocess_sample example_2plus2 char_tokenizer 16 = Ok fr /\
    16 <= prompt_len fr /\
    out_labels (returned fr) = replicate (Z.to_nat 16) IGNORE.
Proof.
  destruct (full_prompt_ignores_everything char_tokenizer
              char_tokenizer_contract 16 ltac:(lia) example_2plus2
              (lit "2+2?") (lit "4") example_2plus2_user
              example_2plus2_assistant) as (fr & Hrun & _ & Hfull).
  exists fr. split; [exact Hrun|].
  assert (Hlen : 16 <= prompt_len fr).
  { vm_compute in Hrun. injection Hrun as <-. cbn [prompt_len]. lia. }
  split; [exact Hlen | exact (Hfull Hlen)].
Defined.

Lemma required_fields_witness :
  preprocess_sample ∅ char_tokenizer 16 = Raise (KeyError "user") /\
  preprocess_sample {[ "user" := lit "2+2?" ]} char_tokenizer 16
  = Raise (KeyError "assistant") /\
  (exists r, preprocess_sample example_bare char_tokenizer 16 = Ok r).
Proof.
  split; [|split].
  - apply (proj1 (required_fields ∅ char_tokenizer 16)). reflexivity.
  - apply (proj1 (proj2 (required_fields {[ "user" := lit "2+2?" ]}
                           char_tokenizer 16))).
    + eexists. reflexivity.
    + reflexivity.
  - apply (proj2 (proj2 (required_fields example_bare char_tokenizer 16))).
    + apply char_tokenizer_contract.
    + lia.
    + eexists. reflexivity.
    + eexists. reflexivity.
Defined.

Lemma prompt_len_within_budget_witness :
  exists fr,
    run_preprocess_sample example_2plus2 char_tokenizer 16 = Ok fr /\
    0 <= prompt_len fr <= 16 /\
    (Z.to_nat (prompt_len fr) <= length (inp_ids fr))%nat /\
    slice_stop (prompt_len fr) (length (inp_ids fr))
    = Z.to_nat (prompt_len fr) /\
    (16 <= prompt_len fr -> prompt_len fr = 16).
Proof.
  apply (prompt_len_within_budget char_tokenizer char_tokenizer_contract 16
           ltac:(lia) example_2plus2 (lit "2+2?") (lit "4")).
  - exact example_2plus2_user.
  - exact example_2plus2_assistant.
Defined.

(** * Beyond the specification: the rest of the notebooks *)

(** ** [str.strip] *)

Lemma lstrip_suffix s : lstrip s `suffix_of` s.
Proof.
  induction s as [|c s IH]; [done|]. simpl.
  destruct (is_space c); [by apply suffix_cons_r | done].
Qed.

Lemma rstrip_prefix s : rstrip s `prefix_of` s.
Proof.
  unfold rstrip. apply prefix_suffix_reverse.
  rewrite reverse_involutive. apply lstrip_suffix.
Qed.

Lemma lstrip_head s c s' : lstrip s = c :: s' -> is_space c = false.
Proof.
  induction s as [|d s IH]; [done|]. simpl.
  destruct (is_space d) eqn:Hd; [done|]. by intros [= <- _].
Qed.

Lemma lstrip_keeps c s : is_space c = false -> lstrip (c :: s) = c :: s.
Proof. intros H. simpl. by rewrite H. Qed.

Lemma strip_trimmed s : trimmed (strip s).
Proof.
  unfold strip. set (t := lstrip s).
  destruct (rstrip t) as [|x r] eqn:Hr; [by left|]. right.
  pose proof (rstrip_prefix t) as Hpre. rewrite Hr in Hpre. split.
  - exists x. split; [done|].
    destruct t as [|a t'] eqn:Ht.
    { apply prefix_length in Hpre. simpl in Hpre. lia. }
    apply prefix_cons_inv_1 in Hpre as ->.
    by apply (lstrip_head s a t').
  - unfold rstrip in Hr.
    destruct (lstrip (reverse t)) as [|z u] eqn:Hu; [done|].
    exists z. split.
    + rewrite <- Hr, reverse_cons. apply last_snoc.
    + by apply (lstrip_head (reverse t) z u).
Qed.

Lemma strip_fixed s : trimmed s -> strip s = s.
Proof.
  intros [-> | [(a & Ha & Hsa) (z & Hz & Hsz)]]; [done|].
  destruct s as [|a' s']; [done|]. injection Ha as ->.
  unfold strip. rewrite (lstrip_keeps a s' Hsa). unfold rstrip.
  rewrite <- head_reverse in Hz.
  destruct (reverse (a :: s')) as [|z' r] eqn:Hrev; [done|].
  injection Hz as ->. rewrite (lstrip_keeps z r Hsz), <- Hrev.
  apply reverse_involutive.
Qed.

Lemma strip_idemp s : strip (strip s) = strip s.
Proof. apply strip_fixed, strip_trimmed. Qed.

Lemma strip_after_space c s : is_space c = true -> strip (c :: s) = strip s.
Proof. intros H. unfold strip. simpl. by rewrite H. Qed.

Lemma trimmed_app a b :
  trimmed a -> trimmed b -> a <> [] -> b <> [] -> trimmed (a ++ b).
Proof.
  intros [-> | [(x & Hx & Hsx) _]] [-> | [_ (z & Hz & Hsz)]] Ha Hb; try done.
  right. split.
  - exists x. split; [|done]. destruct a; [done|]. done.
  - exists z. split; [|done]. rewrite last_app, Hz. done.
Qed.

Lemma trimmed_around a m b :
  trimmed a -> trimmed b -> a <> [] -> b <> [] -> trimmed (a ++ m ++ b).
Proof.
  intros [-> | [(x & Hx & Hsx) _]] [-> | [_ (z & Hz & Hsz)]] Ha Hb; try done.
  right. split.
  - exists x. split; [|done]. destruct a; [done|]. done.
  - exists z. split; [|done]. rewrite !last_app, Hz. done.
Qed.

(** ** Searching and splitting strings *)

Lemma starts_with_prefix p s : starts_with p s = true <-> p `prefix_of` s.
Proof.
  revert s. induction p as [|a p IH]; intros s; simpl.
  - split; [intros _; apply prefix_nil | done].
  - destruct s as [|b s].
    + split; [done|]. intros H. apply prefix_length in H. simpl in H. lia.
    + rewrite andb_true_iff, N.eqb_eq, IH. split.
      * intros [-> H]. by apply prefix_cons.
      * intros H. split; [by eapply prefix_cons_inv_1 | by eapply prefix_cons_inv_2].
Qed.

Lemma starts_with_false_prefix p s :
  starts_with p s = false <-> ~ p `prefix_of` s.
Proof. rewrite <- starts_with_prefix. by destruct (starts_with p s). Qed.

Lemma occurs_cons sep c s :
  occurs sep (c :: s) = starts_with sep (c :: s) || occurs sep s.
Proof. done. Qed.

Lemma occurs_prefix_mono sep t s :
  t `prefix_of` s -> occurs sep t = true -> occurs sep s = true.
Proof.
  revert s. induction t as [|c t IH]; intros s Hpre.
  - simpl. rewrite orb_false_r. intros H.
    destruct sep; [|done]. by destruct s.
  - destruct s as [|d s].
    { apply prefix_length in Hpre. simpl in Hpre. lia. }
    pose proof (prefix_cons_inv_1 _ _ _ _ Hpre) as ->.
    apply prefix_cons_inv_2 in Hpre as Hpre'.
    rewrite !occurs_cons, !orb_true_iff. intros [H | H].
    + left. apply starts_with_prefix. etrans; [|exact Hpre].
      by apply starts_with_prefix.
    + right. by apply IH.
Qed.

Lemma occurs_suffix_mono sep t s :
  t `suffix_of` s -> occurs sep t = true -> occurs sep s = true.
Proof.
  induction s as [|d s IH]; intros Hsuf Ht.
  - apply suffix_nil_inv in Hsuf. by subst.
  - destruct t as [|c t].
    + simpl in Ht. rewrite orb_false_r in Ht. by destruct sep.
    + apply suffix_cons_inv in Hsuf as [[= -> ->] | Hsuf]; [done|].
      rewrite occurs_cons, orb_true_iff. right. by apply IH.
Qed.

Lemma occurs_strip sep s : occurs sep s = false -> occurs sep (strip s) = false.
Proof.
  intros H. destruct (occurs sep (strip s)) eqn:Hs; [|done].
  rewrite <- H. symmetry. unfold strip in Hs.
  apply (occurs_suffix_mono sep (lstrip s)); [apply lstrip_suffix|].
  by apply (occurs_prefix_mono sep (rstrip (lstrip s))); [apply rstrip_prefix|].
Qed.

Lemma push_nonempty c l : push c l <> [].
Proof. by destruct l. Qed.

Lemma push_snoc c front x :
  front <> [] -> push c (front ++ [x]) = push c front ++ [x].
Proof. by destruct front. Qed.

Lemma pieces_nonempty sep s k : pieces sep s k <> [].
Proof.
  revert k. induction s as [|c s IH]; intros k; [done|].
  destruct k as [|k]; simpl; [|apply IH].
  destruct (starts_with sep (c :: s)); [done | apply push_nonempty].
Qed.

Lemma last_cons_nonempty (x : pystr) l : l <> [] -> last (x :: l) = last l.
Proof. intros H. by destruct l. Qed.

Lemma first_piece_prefix sep s :
  exists p ps, pieces sep s 0 = p :: ps /\ p `prefix_of` s.
Proof.
  induction s as [|c s (p & ps & Hp & Hpre)].
  - exists [], []. done.
  - simpl. destruct (starts_with sep (c :: s)).
    + eexists [], _. split; [done | apply prefix_nil].
    + rewrite Hp. exists (c :: p), ps. split; [done | by apply prefix_cons].
Qed.

(** The last piece of a split holds no occurrence of the separator. *)
Lemma last_piece_clean sep s k x :
  sep <> [] -> last (pieces sep s k) = Some x -> occurs sep x = false.
Proof.
  intros Hsep. revert k x. induction s as [|c s IH]; intros k x.
  - intros [= <-]. by destruct sep.
  - destruct k as [|k]; simpl; [|apply IH].
    destruct (starts_with sep (c :: s)) eqn:Hm.
    + rewrite last_cons_nonempty by apply pieces_nonempty. apply IH.
    + destruct (first_piece_prefix sep s) as (p & ps & Hp & Hpre).
      rewrite Hp. simpl. destruct ps as [|q ps].
      * intros [= <-]. rewrite occurs_cons, orb_false_iff. split.
        -- apply starts_with_false_prefix. intros H.
           apply starts_with_false_prefix in Hm. apply Hm.
           etrans; [exact H | by apply prefix_cons].
        -- apply (IH 0%nat). by rewrite Hp.
      * intros H. apply (IH 0%nat). by rewrite Hp.
Qed.

Lemma pieces_no_occurrence sep s : occurs sep s = false -> pieces sep s 0 = [s].
Proof.
  induction s as [|c s IH]; [done|].
  rewrite occurs_cons, orb_false_iff. intros [Hm Hs].
  simpl pieces. rewrite Hm, IH by done. done.
Qed.

Lemma pieces_skip sep x rest :
  pieces sep (x ++ rest) (length x) = pieces sep rest 0.
Proof. induction x as [|a x IH]; [done | exact IH]. Qed.

Lemma borderless_spec sep k :
  borderless sep = true -> (0 < k < length sep)%nat ->
  ~ drop k sep `prefix_of` sep.
Proof.
  unfold borderless. rewrite forallb_forall. intros H Hk.
  apply starts_with_false_prefix, negb_true_iff, H, in_seq. lia.
Qed.

(** Two occurrences of a borderless separator do not overlap. *)
Lemma no_overlap sep pre rest :
  borderless sep = true -> pre <> [] ->
  sep `prefix_of` pre ++ sep ++ rest -> (length sep <= length pre)%nat.
Proof.
  intros Hb Hpre [t Ht].
  destruct (decide (length sep <= length pre)%nat) as [|Hlt]; [done|].
  exfalso. apply (borderless_spec sep (length pre) Hb).
  { destruct pre; [done|]. simpl in *. lia. }
  assert (Hdrop : sep ++ rest = drop (length pre) sep ++ t).
  { apply (f_equal (drop (length pre))) in Ht.
    rewrite drop_app_length, drop_app_le in Ht by lia. done. }
  destruct (prefix_weak_total (drop (length pre) sep) sep (sep ++ rest))
    as [H | H].
  - rewrite Hdrop. by apply prefix_app_r.
  - by apply prefix_app_r.
  - done.
  - apply prefix_length in H. rewrite length_drop in H.
    destruct pre; [done|]. simpl in H. lia.
Qed.

(** Splitting a text that ends with an occurrence of the separator followed
    by a separator-free rest: the rest is the last piece. *)
Lemma pieces_through sep pre rest k :
  borderless sep = true -> sep <> [] -> occurs sep rest = false ->
  (k <= length pre)%nat ->
  exists front, front <> [] /\ pieces sep (pre ++ sep ++ rest) k = front ++ [rest].
Proof.
  intros Hb Hsep Hrest. revert k.
  assert (Hhere : forall t, starts_with sep (sep ++ t) = true).
  { intros t. apply starts_with_prefix. by apply prefix_app_r. }
  induction pre as [|c pre IH]; intros k Hk.
  - assert (k = 0)%nat as -> by (simpl in Hk; lia).
    exists [[]]. split; [done|]. rewrite app_nil_l.
    destruct sep as [|a sep']; [done|].
    pose proof (Hhere rest) as Hm.
    simpl app in *. cbn [pieces]. rewrite Hm.
    replace (length (a :: sep') - 1)%nat with (length sep') by (simpl; lia).
    by rewrite pieces_skip, pieces_no_occurrence.
  - destruct k as [|k].
    + simpl app. cbn [pieces].
      destruct (starts_with sep (c :: pre ++ sep ++ rest)) eqn:Hm.
      * apply starts_with_prefix in Hm.
        pose proof (no_overlap sep (c :: pre) rest Hb ltac:(done) Hm) as Hlen.
        destruct (IH (length sep - 1)%nat) as (front & Hf & ->).
        { simpl in Hlen. lia. }
        exists ([] :: front). done.
      * destruct (IH 0%nat) as (front & Hf & ->); [lia|].
        exists (push c front). split; [apply push_nonempty|].
        by apply push_snoc.
    + simpl. apply IH. simpl in Hk. lia.
Qed.

(** ** The answer of [run_inference] *)

Lemma marker_borderless : borderless ANSWER_MARKER = true.
Proof. reflexivity. Qed.

Lemma marker_nonempty : ANSWER_MARKER <> [].
Proof. discriminate. Qed.

Lemma answer_last text piece :
  last (str_split text ANSWER_MARKER) = Some piece ->
  answer text = Ok (strip piece).
Proof. intros H. unfold answer, last_item. by rewrite H. Qed.

Example split_keeps_empty_tail :
  str_split (lit "a##b##") (lit "##") = [lit "a"; lit "b"; []].
Proof. reflexivity. Qed.

Example split_leftmost : str_split (lit "aaa") (lit "aa") = [[]; lit "a"].
Proof. reflexivity. Qed.

Example answer_of_example_marked : answer example_marked = Ok (lit "4").
Proof. reflexivity. Qed.

(** X1: whatever the decoded text, extracting the answer never raises, and
    the answer holds no ["### Assistant:"] marker and no whitespace at
    either end. *)
Theorem answer_clean text :
  exists a,
    answer text = Ok a /\ occurs ANSWER_MARKER a = false /\ trimmed a.
Proof.
  destruct (last (str_split text ANSWER_MARKER)) as [piece|] eqn:Hlast.
  - exists (strip piece). split; [by apply answer_last|].
    split; [|apply strip_trimmed].
    apply occurs_strip.
    by apply (last_piece_clean ANSWER_MARKER text 0 piece marker_nonempty).
  - apply last_None in Hlast. by apply pieces_nonempty in Hlast.
Qed.

Lemma answer_rest pre rest :
  occurs ANSWER_MARKER rest = false ->
  answer (pre ++ ANSWER_MARKER ++ rest) = Ok (strip rest).
Proof.
  intros Hrest. apply answer_last. unfold str_split.
  destruct (pieces_through ANSWER_MARKER pre rest 0 marker_borderless
              marker_nonempty Hrest ltac:(lia)) as (front & _ & ->).
  apply last_snoc.
Qed.

(** X2: the answer is what follows the last marker: for a text made of
    anything, the marker, and a rest without marker, it is the rest,
    stripped. *)
Theorem answer_after_marker pre rest :
  occurs ANSWER_MARKER rest = false ->
  answer (pre ++ ANSWER_MARKER ++ rest) = Ok (strip rest).
Proof.
  intros Hrest.
  destruct (pieces_through ANSWER_MARKER pre rest 0 marker_borderless
              marker_nonempty Hrest ltac:(lia)) as (front & Hfront & Hsplit).
  unfold answer, last_item, str_split.
  by rewrite Hsplit, last_snoc.
Qed.

Lemma answer_after_marker_witness :
  answer (lit "### Assistant: draft " ++ ANSWER_MARKER ++ lit " 4 ")
  = Ok (strip (lit " 4 ")).
Proof.
  apply (answer_after_marker (lit "### Assistant: draft ") (lit " 4 ")).
  reflexivity.
Defined.

(** X3: a text without the marker is returned whole, stripped. *)
Theorem answer_without_marker text :
  occurs ANSWER_MARKER text = false -> answer text = Ok (strip text).
Proof.
  intros H. apply answer_last. unfold str_split.
  by rewrite pieces_no_occurrence.
Qed.

Lemma answer_without_marker_witness :
  answer (lit " I don't know. ") = Ok (strip (lit " I don't know. ")).
Proof. apply (answer_without_marker (lit " I don't know. ")). reflexivity. Defined.

(** X4: prompt and extraction compose: a text that is the inference prompt
    followed by a reply without marker gives back the reply, stripped,
    whatever the question holds. *)
Theorem answer_of_full_prompt prompt_text reply :
  occurs ANSWER_MARKER reply = false ->
  answer (full_prompt prompt_text ++ reply) = Ok (strip reply).
Proof.
  intros Hreply. unfold full_prompt.
  pose proof (answer_rest
    (SYSTEM ++ LF ++ LF ++ lit "### User:" ++ LF ++ prompt_text ++ LF ++ LF)
    (LF ++ reply)) as H.
  fold ANSWER_MARKER. rewrite <- !app_assoc in *. rewrite H.
  - reflexivity.
  - change (LF ++ reply) with (10%N :: reply).
    rewrite occurs_cons, Hreply. done.
Qed.

Lemma answer_of_full_prompt_witness :
  answer (full_prompt (lit "Is ### Assistant: a marker?") ++ lit "Yes." ++ LF)
  = Ok (strip (lit "Yes." ++ LF)).
Proof.
  apply (answer_of_full_prompt (lit "Is ### Assistant: a marker?")
           (lit "Yes." ++ LF)).
  reflexivity.
Defined.

(** The inference prompt is the system preamble, a blank line, and the
    prompt the training examples were built with. *)
Lemma full_prompt_extends_training_prompt example tokenizer max_len fr :
  run_preprocess_sample example tokenizer max_len = Ok fr ->
  full_prompt (user fr) = SYSTEM ++ LF ++ LF ++ prompt fr.
Proof.
  intros Hrun. by rewrite (rw_prompt _ _ _ _ (run_returns_with _ _ _ _ Hrun)).
Qed.

Lemma full_ans_trimmed example tokenizer max_len fr :
  run_preprocess_sample example tokenizer max_len = Ok fr ->
  assistant fr <> [] -> trimmed (full_ans fr).
Proof.
  intros Hrun Hne. destruct (run_returns_with _ _ _ _ Hrun)
    as [_ Ha Hr Hfull _ _ _ _ _].
  assert (trimmed (assistant fr)) as Hta.
  { destruct (example !! "assistant") as [a|]; [|done].
    injection Ha as <-. apply strip_trimmed. }
  assert (trimmed (reasoning fr)) as Htr by (rewrite Hr; apply strip_trimmed).
  rewrite Hfull. destruct (reasoning fr) as [|c r] eqn:Hreason; [done|].
  by apply trimmed_around.
Qed.

(** X5: round trip between training and inference: on a training text
    (prompt followed by target) the answer extraction returns the target
    exactly, provided the answer is not empty and the target holds no
    marker. *)
Theorem answer_of_training_text example tokenizer max_len fr :
  run_preprocess_sample example tokenizer max_len = Ok fr ->
  assistant fr <> [] ->
  occurs ANSWER_MARKER (full_ans fr) = false ->
  answer (prompt fr ++ full_ans fr) = Ok (full_ans fr).
Proof.
  intros Hrun Hne Hclean.
  pose proof (full_ans_trimmed _ _ _ _ Hrun Hne) as Htrim.
  destruct (run_returns_with _ _ _ _ Hrun) as [_ _ _ _ Hp _ _ _ _].
  rewrite Hp.
  pose proof (answer_rest
    (lit "### User:" ++ LF ++ user fr ++ LF ++ LF) (LF ++ full_ans fr)) as H.
  fold ANSWER_MARKER. rewrite <- !app_assoc in *. rewrite H.
  - f_equal. transitivity (strip (full_ans fr));
      [reflexivity | by apply strip_fixed].
  - change (LF ++ full_ans fr) with (10%N :: full_ans fr).
    rewrite occurs_cons, Hclean. done.
Qed.

Lemma answer_of_training_text_witness :
  exists fr,
    run_preprocess_sample example_reasoned char_tokenizer 64 = Ok fr /\
    answer (prompt fr ++ full_ans fr) = Ok (full_ans fr).
Proof.
  eexists. split; [reflexivity|].
  apply (answer_of_training_text example_reasoned char_tokenizer 64);
    [reflexivity | discriminate | reflexivity].
Defined.

(** ** More on [preprocess_sample] *)

Lemma masked_label (f := fun m x : Z => if m =? 0 then IGNORE else x) m x :
  f m x = IGNORE \/ f m x = x.
Proof. unfold f. destruct (m =? 0); auto. Qed.

(** X6: whatever integer [prompt_len] is (negative, or beyond the sequence,
    as a tokenizer outside its contract may cause), the two masking
    assignments either raise [IndexError], when the attention mask has not
    the shape of the ids, or give labels of the length of the ids in which
    each label is the ignore sentinel or the input id at its position: no
    other label is ever produced. *)
Theorem labels_never_invented (prompt_len : Z) (attn ids : list Z) :
  (length attn = length ids ->
   exists labels,
     mask_prompt_then_padding prompt_len attn ids = Ok labels /\
     length labels = length ids /\
     forall (i : nat) (l : Z),
       labels !! i = Some l -> l = IGNORE \/ ids !! i = Some l) /\
  (length attn <> length ids ->
   mask_prompt_then_padding prompt_len attn ids = Raise IndexError).
Proof.
  unfold mask_prompt_then_padding, fill_where_zero.
  rewrite length_fill_prefix. split; intros Hlen.
  - rewrite decide_True by done. eexists. split; [reflexivity|]. split.
    + rewrite length_zip_with_l_eq by (by rewrite length_fill_prefix).
      done.
    + intros i l. rewrite lookup_zip_with_Some.
      intros (m & x & -> & Hm & Hx).
      destruct (Z.eqb_spec m 0); [by left|].
      rewrite lookup_fill_prefix in Hx. case_decide.
      * left. congruence.
      * by right.
  - by rewrite decide_False.
Qed.

Lemma labels_never_invented_witness :
  (exists labels,
     mask_prompt_then_padding (-1) [1; 1; 0] [7; 8; 9] = Ok labels /\
     length labels = length [7; 8; 9] /\
     forall (i : nat) (l : Z),
       labels !! i = Some l -> l = IGNORE \/ [7; 8; 9] !! i = Some l) /\
  mask_prompt_then_padding (2 ^ 63 + 1) [1; 0] [7; 8; 9] = Raise IndexError.
Proof.
  split.
  - apply (proj1 (labels_never_invented (-1) [1; 1; 0] [7; 8; 9])).
    reflexivity.
  - apply (proj2 (labels_never_invented (2 ^ 63 + 1) [1; 0] [7; 8; 9])).
    discriminate.
Defined.

(** X7: trimming every field of the example beforehand changes nothing: the
    function sees its fields only through [strip]. *)
Theorem pretrimmed_example_same (example : gmap string pystr) tokenizer max_len :
  preprocess_sample (strip <$> example) tokenizer max_len
  = preprocess_sample example tokenizer max_len.
Proof.
  unfold preprocess_sample, run_preprocess_sample, getitem, get.
  rewrite !lookup_fmap.
  destruct (example !! "user") as [u|]; [|done].
  destruct (example !! "assistant") as [a|]; [|done].
  cbn [fmap option_fmap option_map bind].
  destruct (example !! "reasoning") as [r|];
    cbn [fmap option_fmap option_map]; by rewrite !strip_idemp.
Qed.

(** X8: a [reasoning] made of whitespace only counts as no [reasoning]: the
    result is that of the example without the field. *)
Theorem blank_reasoning_is_absent
    (example : gmap string pystr) tokenizer max_len (blank : pystr) :
  strip blank = [] ->
  preprocess_sample (<[ "reasoning" := blank ]> example) tokenizer max_len
  = preprocess_sample (delete "reasoning" example) tokenizer max_len.
Proof.
  intros Hblank.
  unfold preprocess_sample, run_preprocess_sample, getitem, get.
  rewrite !lookup_insert_ne, !lookup_delete_ne by done.
  rewrite lookup_insert_eq, lookup_delete_eq, Hblank. done.
Qed.

Lemma blank_reasoning_is_absent_witness :
  preprocess_sample (<[ "reasoning" := lit "  " ++ LF ]> example_bare)
    char_tokenizer 40
  = preprocess_sample (delete "reasoning" example_bare) char_tokenizer 40.
Proof.
  apply (blank_reasoning_is_absent example_bare char_tokenizer 40
           (lit "  " ++ LF)).
  reflexivity.
Defined.





(** X17: the result depends only on the fields [user], [assistant] and
    [reasoning] and on the tokenizer's answers to truncating calls padded to
    [max_len]: any other column of the example, and what the tokenizer does
    under other options, never influence it. *)
Theorem only_three_fields_read
    (example1 example2 : gmap string pystr)
    (tokenizer1 tokenizer2 : Tokenizer) (max_len : Z) :
  example1 !! "user" = example2 !! "user" ->
  example1 !! "assistant" = example2 !! "assistant" ->
  example1 !! "reasoning" = example2 !! "reasoning" ->
  (forall text, tokenizer1 text max_len PadMaxLength true
                = tokenizer2 text max_len PadMaxLength true) ->
  preprocess_sample example1 tokenizer1 max_len
  = preprocess_sample example2 tokenizer2 max_len.
Proof.
  intros Hu Ha Hr Htok.
  unfold preprocess_sample, run_preprocess_sample, getitem, get.
  rewrite Hu, Ha, Hr.
  destruct (example2 !! "user") as [u|]; [|done].
  destruct (example2 !! "assistant") as [a|]; [|done].
  cbn [bind]. by rewrite !Htok.
Qed.

Lemma only_three_fields_read_witness :
  preprocess_sample example_2plus2 char_tokenizer 40
  = preprocess_sample example_2plus2_tagged truncating_tokenizer 40.
Proof.
  apply (only_three_fields_read example_2plus2 example_2plus2_tagged
           char_tokenizer truncating_tokenizer 40); reflexivity.
Defined.

(** ** The int64 accumulator *)

Lemma wrap_int64_exact z : - 2 ^ 63 <= z < 2 ^ 63 -> wrap_int64 z = z.
Proof. intros Hz. unfold wrap_int64. rewrite Z.mod_small; lia. Qed.

Lemma wrap_int64_add x y : wrap_int64 (x + wrap_int64 y) = wrap_int64 (x + y).
Proof.
  unfold wrap_int64. f_equal.
  replace (x + ((y + 2 ^ 63) mod 2 ^ 64 - 2 ^ 63) + 2 ^ 63)
    with (x + (y + 2 ^ 63) mod 2 ^ 64) by lia.
  rewrite Zplus_mod_idemp_r. f_equal. lia.
Qed.

Lemma tensor_sum_int64_wrap t : tensor_sum_int64 t = wrap_int64 (tensor_sum t).
Proof.
  induction t as [|x t IH]; [done|].
  change (tensor_sum_int64 (x :: t)) with (wrap_int64 (x + tensor_sum_int64 t)).
  by rewrite IH, wrap_int64_add.
Qed.

Lemma tensor_sum_int64_bits mask :
  Forall is_bit mask -> Z.of_nat (length mask) < 2 ^ 63 ->
  tensor_sum_int64 mask = tensor_sum mask.
Proof.
  intros Hbits Hlen. rewrite tensor_sum_int64_wrap.
  pose proof (tensor_sum_bounds mask Hbits).
  apply wrap_int64_exact. lia.
Qed.

Example int64_sum_wraps :
  tensor_sum_int64 [2 ^ 62; 2 ^ 62; 1] = - 2 ^ 63 + 1.
Proof. reflexivity. Qed.

(** X18: the sum of line 328 does not wrap. With a tokenizer honouring its
    contract and [max_len] below 2^63, the int64 sum of the prompt's
    attention mask is the exact sum the model takes for [prompt_len], that
    is the number of real tokens of the prompt. *)
Theorem prompt_len_fits_int64
    tokenizer max_len example user_field assistant_field :
  tokenizer_contract tokenizer -> 0 < max_len < 2 ^ 63 ->
  example !! "user" = Some user_field ->
  example !! "assistant" = Some assistant_field ->
  exists fr prompt_mask,
    run_preprocess_sample example tokenizer max_len = Ok fr /\
    attention_mask (tokenizer (prompt fr) max_len PadMaxLength true)
    = [prompt_mask] /\
    tensor_sum_int64 prompt_mask = prompt_len fr /\
    prompt_len fr = Z.of_nat (real_tokens prompt_mask).
Proof.
  intros Hc Hn Hu Ha.
  destruct (run_well_shaped tokenizer Hc max_len ltac:(lia) example _ _ Hu Ha)
    as (fr & Hrun & Hws).
  destruct (ws_prompt_mask _ _ _ Hws) as (pmask & Hp & Hlen & Hbits & Hk).
  exists fr, pmask. split; [done|]. split; [done|].
  rewrite Hk. split; [|by apply tensor_sum_bits].
  apply tensor_sum_int64_bits; [done | lia].
Qed.

Lemma prompt_len_fits_int64_witness :
  exists fr prompt_mask,
    run_preprocess_sample example_2plus2 char_tokenizer 40 = Ok fr /\
    attention_mask (char_tokenizer (prompt fr) 40 PadMaxLength true)
    = [prompt_mask] /\
    tensor_sum_int64 prompt_mask = prompt_len fr /\
    prompt_len fr = Z.of_nat (real_tokens prompt_mask).
Proof.
  apply (prompt_len_fits_int64 char_tokenizer 40 example_2plus2
           (lit "2+2?") (lit "4"));
    [apply char_tokenizer_contract | lia | reflexivity | reflexivity].
Defined.

(** ** Toolkit paths *)

#[local] Instance Ok_inj {A} : Inj (=) (=) (@Ok A).
Proof. by intros x y [= ->]. Qed.

(** X12: the path setup never raises (the key it reads back was just set),
    puts the toolkit directories in front of the previous [PATH] and
    [LD_LIBRARY_PATH] (or of nothing, when unset), and leaves every other
    variable as it was. *)
Theorem configure_env_prepends (environ : gmap string pystr) :
  exists environ',
    configure_env environ = Ok environ' /\
    environ' !! "CUDA_HOME" = Some (lit "/usr") /\
    environ' !! "PATH"
    = Some (lit "/usr/bin:" ++ get environ "PATH" (lit "")) /\
    environ' !! "LD_LIBRARY_PATH"
    = Some (lit "/usr/lib64:" ++ get environ "LD_LIBRARY_PATH" (lit "")) /\
    forall key : string,
      key <> "CUDA_HOME" -> key <> "PATH" -> key <> "LD_LIBRARY_PATH" ->
      environ' !! key = environ !! key.
Proof.
  unfold configure_env, getitem, get.
  rewrite lookup_insert_eq. cbn [bind].
  rewrite (lookup_insert_ne _ "PATH" "CUDA_HOME") by done.
  rewrite lookup_insert_eq. cbn [bind].
  rewrite (lookup_insert_ne _ "CUDA_HOME" "PATH") by done.
  rewrite !(lookup_insert_ne _ _ "LD_LIBRARY_PATH") by done.
  eexists. split; [reflexivity|].
  repeat split.
  - by rewrite !lookup_insert_ne, lookup_insert_eq by done.
  - by rewrite lookup_insert_ne, lookup_insert_eq by done.
  - by rewrite lookup_insert_eq.
  - intros key H1 H2 H3. by rewrite !lookup_insert_ne by done.
Qed.

Lemma configure_env_Ok (environ : gmap string pystr) :
  configure_env environ
  = Ok (<[ "LD_LIBRARY_PATH" :=
             lit "/usr/lib64:" ++ get environ "LD_LIBRARY_PATH" (lit "") ]>
          (<[ "PATH" := lit "/usr/bin:" ++ get environ "PATH" (lit "") ]>
             (<[ "CUDA_HOME" := lit "/usr" ]> environ))).
Proof.
  unfold configure_env, getitem, get.
  rewrite lookup_insert_eq. cbn [bind].
  rewrite (lookup_insert_ne _ "PATH" "CUDA_HOME") by done.
  rewrite lookup_insert_eq. cbn [bind].
  rewrite (lookup_insert_ne _ "CUDA_HOME" "PATH") by done.
  by rewrite !(lookup_insert_ne _ _ "LD_LIBRARY_PATH") by done.
Qed.

(** X13: the setup is not idempotent: running the cell again puts the
    toolkit directory in front a second time. *)
Theorem configure_env_twice (environ once twice : gmap string pystr) :
  configure_env environ = Ok once ->
  configure_env once = Ok twice ->
  twice !! "PATH"
  = Some (lit "/usr/bin:" ++ lit "/usr/bin:" ++ get environ "PATH" (lit "")) /\
  twice !! "PATH" <> once !! "PATH".
Proof.
  rewrite !configure_env_Ok. intros H1 H2.
  apply (inj Ok) in H1 as <-. apply (inj Ok) in H2 as <-.
  assert (forall v : pystr,
            get (<[ "LD_LIBRARY_PATH" := v ]>
                   (<[ "PATH" :=
                         lit "/usr/bin:" ++ get environ "PATH" (lit "") ]>
                      (<[ "CUDA_HOME" := lit "/usr" ]> environ)))
                "PATH" (lit "")
            = lit "/usr/bin:" ++ get environ "PATH" (lit "")) as Hget.
  { intros v. unfold get at 1.
    by rewrite lookup_insert_ne, lookup_insert_eq by done. }
  rewrite !(lookup_insert_ne _ "LD_LIBRARY_PATH" "PATH") by done.
  rewrite !lookup_insert_eq, Hget. split; [done|].
  intros H. apply (f_equal (from_option length 0%nat)) in H.
  cbn [from_option] in H. rewrite !length_app in H.
  assert (length (lit "/usr/bin:") = 9%nat) as Hlen by reflexivity. lia.
Qed.

Lemma configure_env_twice_witness :
  exists once twice,
    configure_env {[ "PATH" := lit "/bin" ]} = Ok once /\
    configure_env once = Ok twice /\
    twice !! "PATH"
    = Some (lit "/usr/bin:" ++ lit "/usr/bin:"
              ++ get {[ "PATH" := lit "/bin" ]} "PATH" (lit "")) /\
    twice !! "PATH" <> once !! "PATH".
Proof.
  eexists _, _. split; [apply configure_env_Ok|].
  split; [apply configure_env_Ok|].
  apply (configure_env_twice {[ "PATH" := lit "/bin" ]});
    apply configure_env_Ok.
Defined.

(** ** Alpaca formatting *)

Module AlpacaFacts.
Import Alpaca.

Lemma length_zip3 a b c :
  length (zip3 a b c) = (length a `min` (length b `min` length c))%nat.
Proof.
  revert b c. induction a as [|x a IH]; intros [|y b] [|z c]; simpl;
    try done; try lia.
  rewrite IH. lia.
Qed.

Lemma lookup_zip3 a b c (k : nat) x y z :
  a !! k = Some x -> b !! k = Some y -> c !! k = Some z ->
  zip3 a b c !! k = Some (x, y, z).
Proof.
  revert b c k. induction a as [|x' a IH]; intros [|y' b] [|z' c] [|k];
    simpl; try done.
  - by intros [= ->] [= ->] [= ->].
  - apply IH.
Qed.

Lemma comprehension_eos eos rows :
  comprehension (Some eos) rows
  = Done ((fun '(i, inp, out) => alpaca_tmpl_format i inp out ++ eos)
            <$> rows).
Proof.
  induction rows as [|[[i inp] out] rows IH]; [done|].
  simpl. by rewrite IH.
Qed.

(** X14: on a batch with its three columns and a tokenizer with an
    end-of-sequence token, [format_alpaca] returns the single column [text]
    with one entry per complete row (as many as the shortest column), the
    k-th being the template filled with the k-th instruction, input and
    output, followed by the token. *)
Theorem format_alpaca_rows
    (ex : gmap string (list pystr)) (eos : pystr)
    (instructions inputs outputs : list pystr) :
  ex !! "instruction" = Some instructions ->
  ex !! "input" = Some inputs ->
  ex !! "output" = Some outputs ->
  exists text,
    format_alpaca (Some eos) ex = Done {[ "text" := text ]} /\
    length text
    = (length instructions `min` (length inputs `min` length outputs))%nat /\
    forall (k : nat) i inp out,
      instructions !! k = Some i -> inputs !! k = Some inp ->
      outputs !! k = Some out ->
      text !! k
      = Some (HEADER ++ i ++ INPUT_HEADING ++ inp ++ RESPONSE_HEADING
                ++ out ++ eos).
Proof.
  intros Hi Hinp Hout. unfold format_alpaca, column.
  rewrite Hi, Hinp, Hout. cbn [and_then].
  rewrite comprehension_eos. cbn [and_then].
  eexists. split; [reflexivity|]. split.
  - by rewrite length_fmap, length_zip3.
  - intros k i inp out Hk1 Hk2 Hk3.
    rewrite list_lookup_fmap, (lookup_zip3 _ _ _ _ _ _ _ Hk1 Hk2 Hk3).
    cbn [fmap option_fmap option_map]. unfold alpaca_tmpl_format.
    by rewrite <- !app_assoc.
Qed.

Lemma format_alpaca_rows_witness :
  exists text,
    format_alpaca (Some (lit "</s>")) example_batch
    = Done {[ "text" := text ]} /\
    length text
    = (length [lit "2+2?"; lit "3+3?"]
         `min` (length [lit "add"; lit "add again"]
                  `min` length [lit "4"; lit "6"]))%nat /\
    forall (k : nat) i inp out,
      [lit "2+2?"; lit "3+3?"] !! k = Some i ->
      [lit "add"; lit "add again"] !! k = Some inp ->
      [lit "4"; lit "6"] !! k = Some out ->
      text !! k
      = Some (HEADER ++ i ++ INPUT_HEADING ++ inp ++ RESPONSE_HEADING
                ++ out ++ lit "</s>").
Proof.
  apply (format_alpaca_rows example_batch (lit "</s>")); reflexivity.
Defined.

(** X15: a missing column raises [KeyError] for the first of
    [instruction], [input], [output] that is absent, before any row is
    formatted: whatever the token and even on an empty batch. *)
Theorem format_alpaca_missing_column
    (ex : gmap string (list pystr)) (eos_token : option pystr) :
  (ex !! "instruction" = None ->
   format_alpaca eos_token ex = Failed (KeyError "instruction")) /\
  (is_Some (ex !! "instruction") -> ex !! "input" = None ->
   format_alpaca eos_token ex = Failed (KeyError "input")) /\
  (is_Some (ex !! "instruction") -> is_Some (ex !! "input") ->
   ex !! "output" = None ->
   format_alpaca eos_token ex = Failed (KeyError "output")).
Proof.
  unfold format_alpaca, column. repeat split.
  - by intros ->.
  - by intros [? ->] ->.
  - by intros [? ->] [? ->] ->.
Qed.

Lemma format_alpaca_missing_column_witness :
  format_alpaca None ∅ = Failed (KeyError "instruction") /\
  format_alpaca None {[ "instruction" := [] ]} = Failed (KeyError "input") /\
  format_alpaca None {[ "instruction" := []; "input" := [] ]}
  = Failed (KeyError "output").
Proof.
  split; [|split].
  - apply (proj1 (format_alpaca_missing_column ∅ None)). reflexivity.
  - apply (proj1 (proj2 (format_alpaca_missing_column
                           {[ "instruction" := [] ]} None)));
      [eexists|]; reflexivity.
  - apply (proj2 (proj2 (format_alpaca_missing_column
                           {[ "instruction" := []; "input" := [] ]} None)));
      [eexists | eexists |]; reflexivity.
Defined.

(** X16: with a tokenizer that has no end-of-sequence token, a batch with a
    complete row raises [TypeError], while a batch in which some column is
    empty still returns an empty [text] column. *)
Theorem format_alpaca_without_eos
    (ex : gmap string (list pystr))
    (instructions inputs outputs : list pystr) :
  ex !! "instruction" = Some instructions ->
  ex !! "input" = Some inputs ->
  ex !! "output" = Some outputs ->
  (instructions <> [] -> inputs <> [] -> outputs <> [] ->
   format_alpaca None ex = Failed TypeError) /\
  (instructions = [] \/ inputs = [] \/ outputs = [] ->
   format_alpaca None ex = Done {[ "text" := [] ]}).
Proof.
  intros Hi Hinp Hout. unfold format_alpaca, column.
  rewrite Hi, Hinp, Hout. cbn [and_then]. split.
  - intros H1 H2 H3.
    destruct instructions, inputs, outputs; done.
  - intros [-> | [-> | ->]]; [done | by destruct instructions |].
    by destruct instructions, inputs.
Qed.

Lemma format_alpaca_without_eos_witness :
  format_alpaca None example_batch = Failed TypeError.
Proof.
  apply (format_alpaca_without_eos example_batch
           [lit "2+2?"; lit "3+3?"] [lit "add"; lit "add again"]
           [lit "4"; lit "6"]); done.
Defined.

End AlpacaFacts.
